(** * Algebraic-effect runtime: operation trees, bind, go and handlers

    A shallow embedding of the JavaScript effect runtime (operation,
    bind, all, ap, seq, go, handler and the example effect libraries)
    together with the laws and scenarios stated about it.

    JavaScript is untyped: a leaf of a program tree is any value that
    does not carry the [_IS_OPERATION_] flag, and a node is an object
    built by [operation].  The embedding makes this test a constructor
    match: [Leaf v] is a plain (non-operation) value, [Op] an operation
    object.  Continuations are total functions and a tree is
    well-founded: along every sequence of answers a leaf is reached.
    Exceptions of the host (calling a value that is not a function) are
    outside the embedding. *)

From Stdlib Require Import List String ZArith Bool Lia FunctionalExtensionality.
From Equations Require Import Equations.
From Equations.Prop Require Import Logic.
Import ListNotations.
Open Scope string_scope.
Open Scope Z_scope.

Set Implicit Arguments.
Set Warnings "-register-all".

(** ** JavaScript values *)

(** The first-order values that travel as operation parameters and as
    answers: [undefined], booleans, (integer-valued) numbers, [NaN],
    strings and arrays. *)
Inductive Val : Type :=
| VUndef : Val
| VBool (b : bool) : Val
| VNum (n : Z) : Val
| VNaN : Val
| VStr (s : string) : Val
| VArr (xs : list Val) : Val.

(** [b ? m : n]: the truthiness test of the conditional operator. *)
Definition truthy (v : Val) : bool :=
  match v with
  | VUndef => false
  | VBool b => b
  | VNum n => negb (n =? 0)
  | VNaN => false
  | VStr s => negb (String.eqb s "")
  | VArr _ => true
  end.

(** A JavaScript number is a double.  An integer below [2^53] in
    magnitude is a double; a larger integer is rounded to the nearest
    integer with a 53-bit significand, ties to the even significand
    (magnitudes from [2^1024] on, which give [Infinity], are outside
    this model). *)
Definition round_double (z : Z) : Z :=
  let a := Z.abs z in
  if a <? 2 ^ 53 then z
  else
    let e := Z.log2 a - 52 in
    let q := a / 2 ^ e in
    let r := a mod 2 ^ e in
    let half := 2 ^ (e - 1) in
    let up := orb (half <? r) (andb (r =? half) (Z.odd q)) in
    Z.sgn z * ((if up then q + 1 else q) * 2 ^ e).

(** [x + y], [x - y] and [Math.max(x, y)] on integer-valued numbers,
    the exact result rounded to a double; [+] also concatenates two
    strings.  Other operand kinds give [NaN] here (JavaScript coerces
    them first), no theorem depends on them. *)
Definition js_add (x y : Val) : Val :=
  match x, y with
  | VNum a, VNum b => VNum (round_double (a + b))
  | VStr a, VStr b => VStr (a ++ b)
  | _, _ => VNaN
  end.

Definition js_sub (x y : Val) : Val :=
  match x, y with
  | VNum a, VNum b => VNum (round_double (a - b))
  | _, _ => VNaN
  end.

Definition Math_max (x y : Val) : Val :=
  match x, y with
  | VNum a, VNum b => VNum (Z.max a b)
  | _, _ => VNaN
  end.

(** [xs[i]]: indexing past either end of an array gives [undefined]. *)
Definition js_index (xs : list Val) (i : Z) : Val :=
  if i <? 0 then VUndef else nth (Z.to_nat i) xs VUndef.

(** The [i]-th positional argument of a call; a missing one is
    [undefined]. *)
Definition arg (i : nat) (args : list Val) : Val := nth i args VUndef.

(** ** Operation trees *)

(** [Program A]: a leaf holding a plain value of type [A], or an
    operation [{ _IS_OPERATION_: true, name, params, resume }]. *)
Inductive Program (A : Type) : Type :=
| Leaf (value : A) : Program A
| Op (name : string) (params : list Val) (resume : Val -> Program A) : Program A.

Arguments Leaf {A} value.
Arguments Op {A} name params resume.

(** [pure]: a leaf is the value itself. *)
Definition pure {A : Type} (x : A) : Program A := Leaf x.

(** [const id = x => x], the default continuation: the answer comes
    back as a leaf. *)
Definition id_resume : Val -> Program Val := fun x => Leaf x.

(** [operation(name, params = [], resume = id)]. *)
Definition operation {A : Type} (name : string) (params : list Val)
  (resume : Val -> Program A) : Program A :=
  Op name params resume.

Definition operation0 (name : string) : Program Val := operation name [] id_resume.
Definition operation1 (name : string) (params : list Val) : Program Val :=
  operation name params id_resume.

(** [program?._IS_OPERATION_] *)
Definition is_operation {A : Type} (p : Program A) : bool :=
  match p with
  | Leaf _ => false
  | Op _ _ _ => true
  end.

(** [bind(program, then)] *)
Fixpoint bind {A B : Type} (program : Program A) (then_ : A -> Program B) : Program B :=
  match program with
  | Leaf v => then_ v
  | Op name params resume => operation name params (fun a => bind (resume a) then_)
  end.

(** [all(computations)]: runs the computations left to right and
    collects their results. *)
Fixpoint all {A : Type} (computations : list (Program A)) : Program (list A) :=
  match computations with
  | [] => Leaf []
  | c :: rest => bind c (fun x => bind (all rest) (fun xs => Leaf (x :: xs)))
  end.

(** [ap(cfunc, ...cargs)]: [func(...args)] calls [func] on the spread
    argument list. *)
Definition ap {A B : Type} (cfunc : Program (list A -> Program B))
  (cargs : list (Program A)) : Program B :=
  bind cfunc (fun func => bind (all cargs) (fun args => func args)).

(** [seq(...computations)]: [xs[xs.length - 1]]. *)
Definition seq (computations : list (Program Val)) : Program Val :=
  bind (all computations)
       (fun xs => Leaf (js_index xs (Z.of_nat (List.length xs) - 1))).

(** ** Generators and the structured program builder *)

(** A started generator, observed after a call of [next]: it has either
    returned ([done: true]) or is suspended at a [yield] with the value
    it yielded and what it does with each answer.  A generator body
    written this way is a function of the answers only, so running it
    twice on the same answers gives the same result. *)
Inductive Gen : Type :=
| Done (value : Program Val) : Gen
| Yield (value : Program Val) (resume : Val -> Gen) : Gen.

(** [gen.next(x)] on a started generator; a generator that has
    returned answers [{ value: undefined, done: true }] from then on. *)
Definition next (gen : Gen) (x : Val) : Gen :=
  match gen with
  | Done _ => Done (Leaf VUndef)
  | Yield _ resume => resume x
  end.

(** [history.reduce((_, x) => gen.next(x), gen.next())]: the generator
    is started and fed the recorded answers in order. *)
Definition replay (gen : Gen) (history : list Val) : Gen :=
  fold_left next history gen.

(** What [history.concat(x)] appends to the history: the elements of
    [x] when [x] is an array, [x] itself otherwise. *)
Definition answers (x : Val) : list Val :=
  match x with
  | VArr xs => xs
  | _ => [x]
  end.

(** [history.concat(x)] *)
Definition js_concat (history : list Val) (x : Val) : list Val :=
  (history ++ answers x)%list.

(** One or more resumptions deeper into a generator. *)
Inductive gen_after : Gen -> Gen -> Prop :=
| gen_after_resume (value : Program Val) (resume : Val -> Gen)
    (x : Val) (more : list Val) :
    gen_after (replay (resume x) more) (Yield value resume).

(** A routine is finite: every chain of resumptions ends. *)
Definition replay_acc (gen : Gen) : forall history, Acc gen_after (replay gen history).
Proof.
  induction gen as [v | v resume IH]; intro history.
  - constructor. intros g' Hafter. destruct history as [| x rest].
    + inversion Hafter.
    + unfold replay in Hafter. simpl in Hafter.
      assert (Hd : forall h, fold_left next h (Done (Leaf VUndef)) = Done (@Leaf Val VUndef)).
      { intro h. induction h as [| y h IHh]; simpl; [reflexivity | exact IHh]. }
      rewrite Hd in Hafter. inversion Hafter.
  - destruct history as [| x rest].
    + constructor. intros g' Hafter. inversion Hafter; subst. apply IH.
    + apply (IH x rest).
Defined.

Definition gen_after_wf : well_founded gen_after :=
  fun gen => replay_acc gen [].

#[export] Instance WellFounded_gen_after : WellFounded gen_after := gen_after_wf.

(** Replaying a longer history goes on from where the shorter one led. *)
Definition replay_app (gen : Gen) (h1 h2 : list Val) :
  replay gen (h1 ++ h2) = replay (replay gen h1) h2.
Proof. unfold replay. apply fold_left_app. Defined.

Definition replay_step (gen : Gen) (history : list Val) (x : Val) (more : list Val)
  (value : Program Val) (resume : Val -> Gen) :
  replay gen history = Yield value resume ->
  gen_after (replay gen (history ++ x :: more)) (replay gen history).
Proof.
  intro H. rewrite replay_app, H. apply gen_after_resume.
Defined.

(** [go(gf, args = [], history = [])]: restarts the routine, replays
    the history and binds the rest of the routine onto the value of the
    suspension point reached; the rest is [go] again on
    [history.concat(x)].  For the empty array [concat] appends nothing:
    the code then builds the very same tree again, so that answer can be
    given without end.  A tree of this embedding is well-founded, so it
    stops there, at a leaf [undefined]; no theorem below resumes a
    routine with the empty array. *)
Equations go {Args : Type} (gf : Args -> Gen) (args : Args) (history : list Val)
  : Program Val by wf (replay (gf args) history) gen_after :=
  go gf args history with inspect (replay (gf args) history) := {
    | @exist (Done value) _ => value
    | @exist (Yield value resume) Hres =>
        bind value (fun x =>
          match answers x with
          | [] => Leaf VUndef
          | a :: more => go gf args (history ++ a :: more)
          end) }.
Next Obligation.
  eapply replay_step. exact Hres.
Defined.

(** The tree a started generator stands for when it is stepped once,
    without restarts: what replaying is meant to reproduce. *)
Fixpoint unroll (gen : Gen) : Program Val :=
  match gen with
  | Done value => value
  | Yield value resume => bind value (fun x => unroll (resume x))
  end.

(** ** Handlers *)

(** The optional [return] entry of a model.  Without it a leaf is
    returned unchanged, so the output leaves are the input leaves. *)
Inductive ReturnClause (A : Type) : Type -> Type :=
| NoReturn : ReturnClause A A
| Return (B : Type) (transform : A -> Program B) : ReturnClause A B.

Arguments NoReturn {A}.
Arguments Return {A B} transform.

(** [model.return ? model.return(tree) : tree] *)
Definition apply_return {A B : Type} (r : ReturnClause A B) : A -> Program B :=
  match r in ReturnClause _ T return A -> Program T with
  | NoReturn => fun tree => Leaf tree
  | Return transform => fun tree => transform tree
  end.

(** An entry of a model, called as [model[name](...params, k)]: it gets
    the operation's parameters and, after them, the continuation.  The
    entries below read their declared parameters by position and take
    the continuation as [resume], which is what the call does for an
    operation that carries as many parameters as the entry declares
    before [resume]. *)
Definition Impl (B : Type) : Type := list Val -> (Val -> Program B) -> Program B.

(** A model: the optional [return] and the table of entries;
    [model_ops m name] is [None] exactly when [name in model] is false.
    Effect names are kept apart from the key [return]. *)
Record Model (A B : Type) : Type := {
  model_return : ReturnClause A B;
  model_ops : string -> option (Impl B)
}.

(** [handler(model)]: the evaluator that calls the entry directly,
    [model[name](...params.concat(a => evaluate(resume(a))))]. *)
Fixpoint evaluate {A B : Type} (model : Model A B) (tree : Program A) : Program B :=
  match tree with
  | Leaf value => apply_return (model_return model) value
  | Op name params resume =>
      match model_ops model name with
      | Some impl => impl params (fun a => evaluate model (resume a))
      | None => operation name params (fun a => evaluate model (resume a))
      end
  end.

Definition handler {A B : Type} (model : Model A B) : Program A -> Program B :=
  evaluate model.

(** The variant whose entries are generator functions, started through
    [go]: [go(model[name], params.concat(x => handle(resume(x), model)))]. *)
Definition GenImpl : Type := list Val -> (Val -> Program Val) -> Gen.

Record GenModel : Type := {
  gmodel_return : option (Val -> Program Val);
  gmodel_ops : string -> option GenImpl
}.

Definition call_gen (impl : GenImpl) (args : list Val * (Val -> Program Val)) : Gen :=
  impl (fst args) (snd args).

(** Modelled from the spec: [handle(tree, model)] is called by this
    evaluator but is not defined in the sources; the definition
    [handler = _handler => computation => handle(computation, _handler)]
    makes it the evaluator itself with its arguments swapped, the
    evaluation of a tree under a model described by the spec. *)
Fixpoint handle (tree : Program Val) (model : GenModel) : Program Val :=
  match tree with
  | Leaf value =>
      match gmodel_return model with
      | Some transform => transform value
      | None => Leaf value
      end
  | Op name params resume =>
      match gmodel_ops model name with
      | Some impl =>
          go (call_gen impl) (params, fun x => handle (resume x) model) []
      | None => operation name params (fun x => handle (resume x) model)
      end
  end.

Definition handler_go (model : GenModel) : Program Val -> Program Val :=
  fun computation => handle computation model.

(** The name of the operation a residual tree is waiting on. *)
Definition unhandled_name {A : Type} (p : Program A) : option string :=
  match p with
  | Leaf _ => None
  | Op name _ _ => Some name
  end.

(** Every operation of the tree, on every path, has a name satisfying [P]. *)
Fixpoint all_ops {A : Type} (P : string -> Prop) (p : Program A) : Prop :=
  match p with
  | Leaf _ => True
  | Op name _ resume => P name /\ forall a, all_ops P (resume a)
  end.

(** ** Effect libraries *)

(** [const print = x => operation("print", [x])] *)
Definition print (x : Val) : Program Val := operation1 "print" [x].

(** [let fail = operation("fail")], [let decide = operation("decide")] *)
Definition fail : Program Val := operation0 "fail".
Definition decide : Program Val := operation0 "decide".

(** [choose(m, n)]: [bind(decide, b => (b ? m : n))]; a plain value
    given for [m] or [n] is a leaf. *)
Definition choose (m n : Program Val) : Program Val :=
  bind decide (fun b => if truthy b then m else n).

(** [let get = operation("get")], [let put = s => operation("put", [s])] *)
Definition get : Program Val := operation0 "get".
Definition put (s : Val) : Program Val := operation1 "put" [s].

(** The table of a model given as a list of named entries.  An
    operation name is taken not to be [return] nor a property that
    every object inherits ([toString], [constructor], ...), for which
    [name in model] holds whatever the entries are. *)
Fixpoint table {I : Type} (entries : list (string * I)) (name : string) : option I :=
  match entries with
  | [] => None
  | (key, impl) :: rest => if String.eqb key name then Some impl else table rest name
  end.

(** [abc]: three prints in a row; the generator falls off its end and
    so returns [undefined]. *)
Definition abc_gen (_ : unit) : Gen :=
  Yield (print (VStr "A")) (fun _ =>
  Yield (print (VStr "B")) (fun _ =>
  Yield (print (VStr "C")) (fun _ =>
  Done (Leaf VUndef)))).

Definition abc : Program Val := go abc_gen tt [].

(** [hprintRev]: [print(x, resume) { return bind(resume(), () => print(x)) }] *)
Definition hprintRev_print : Impl Val :=
  fun params resume =>
    let x := arg 0 params in
    bind (resume VUndef) (fun _ => print x).

Definition hprintRev_model : Model Val Val := {|
  model_return := NoReturn;
  model_ops := table [("print", hprintRev_print)]
|}.

Definition hprintRev : Program Val -> Program Val := handler hprintRev_model.

(** [r[i]] on an array value (other kinds of value are not indexed by
    the handlers below). *)
Definition js_get (r : Val) (i : Z) : Val :=
  match r with
  | VArr xs => js_index xs i
  | _ => VUndef
  end.

(** [hprintCollect]: [return(x) { return [x, ""] }] and
    [print(x, resume) { return bind(resume(), r => [r[0], x + r[1]]) }] *)
Definition hprintCollect_return (x : Val) : Program Val :=
  Leaf (VArr [x; VStr ""]).

Definition hprintCollect_print : Impl Val :=
  fun params resume =>
    let x := arg 0 params in
    bind (resume VUndef) (fun r => Leaf (VArr [js_get r 0; js_add x (js_get r 1)])).

Definition hprintCollect_model : Model Val Val := {|
  model_return := Return hprintCollect_return;
  model_ops := table [("print", hprintCollect_print)]
|}.

Definition hprintCollect : Program Val -> Program Val := handler hprintCollect_model.

(** [run]'s entry for print, [print(x, resume) { console.info(x); resume() }],
    with the console made explicit: the lines written so far go in, the
    lines written when the evaluation returns come out.  An operation
    [run] has no entry for is handed back with its continuation not
    called, so nothing behind it is written.  ([asynk] carries a host
    function and is not part of this model.) *)
Fixpoint run_console (tree : Program Val) (console : list Val) : list Val :=
  match tree with
  | Leaf _ => console
  | Op name params resume =>
      if String.eqb name "print"
      then run_console (resume VUndef) (console ++ [arg 0 params])
      else console
  end.

(** [pickMax]: the generator entry
    [*decide(resume) { let x = yield resume(true); let y = yield resume(false);
                       return Math.max(x, y) }] *)
Definition pickMax_decide : GenImpl :=
  fun _params resume =>
    Yield (resume (VBool true)) (fun x =>
    Yield (resume (VBool false)) (fun y =>
    Done (Leaf (Math_max x y)))).

Definition pickMax_model : GenModel := {|
  gmodel_return := None;
  gmodel_ops := table [("decide", pickMax_decide)]
|}.

Definition pickMax : Program Val -> Program Val := handler_go pickMax_model.

(** [pf]: [let x = yield choose(15, 30); let y = yield choose(5, 10); return x - y] *)
Definition pf_gen (_ : unit) : Gen :=
  Yield (choose (Leaf (VNum 15)) (Leaf (VNum 30))) (fun x =>
  Yield (choose (Leaf (VNum 5)) (Leaf (VNum 10))) (fun y =>
  Done (Leaf (js_sub x y)))).

Definition pf : Program Val := go pf_gen tt [].

(** [state]: the carrier is a JavaScript function, called on its
    argument list.
    [return: x => _ => x],
    [get: resume => s => ap(resume(s), s)],
    [put: (s, resume) => _ => ap(resume(), s)]. *)
Definition Carrier : Type := list Val -> Program Val.

Definition state_return (x : Val) : Program Carrier :=
  Leaf (fun _ => Leaf x).

Definition state_get : Impl Carrier :=
  fun _params resume =>
    Leaf (fun args => let s := arg 0 args in ap (resume s) [Leaf s]).

Definition state_put : Impl Carrier :=
  fun params resume =>
    let s := arg 0 params in
    Leaf (fun _ => ap (resume VUndef) [Leaf s]).

Definition state_model : Model Val Carrier := {|
  model_return := Return state_return;
  model_ops := table [("get", state_get); ("put", state_put)]
|}.

Definition state : Program Val -> Program Carrier := handler state_model.

(** [f(s)] for the result [f] of a handler whose carrier is a function:
    defined when the result is a leaf, that is when every operation was
    handled. *)
Definition run_with (p : Program Carrier) (s : Val) : option (Program Val) :=
  match p with
  | Leaf f => Some (f [s])
  | Op _ _ _ => None
  end.

(** The state-threading program: [let x = yield get; yield put(x + 10);
    let y = yield get; return y]. *)
Definition get_put_get_gen (_ : unit) : Gen :=
  Yield get (fun x =>
  Yield (put (js_add x (VNum 10))) (fun _ =>
  Yield get (fun y =>
  Done (Leaf y)))).

Definition get_put_get : Program Val := go get_put_get_gen tt [].

(** Explicit state passing for a program of [get] and [put]
    operations, following the description of the state effect: the
    value produced and the state left behind, from the state at entry.
    An operation of another name stops the run. *)
Fixpoint exec (p : Program Val) (s : Val) : Val * Val :=
  match p with
  | Leaf x => (x, s)
  | Op name params resume =>
      if String.eqb name "get" then exec (resume s) s
      else if String.eqb name "put" then exec (resume VUndef) (arg 0 params)
      else (VUndef, s)
  end.

Definition get_or_put (name : string) : Prop := name = "get" \/ name = "put".

(** ** Further definitions: observations, choice and the monoid example *)

(** The subtree reached by answering the operations met on the way
    with the given answers, in order. *)
Fixpoint follow {A : Type} (p : Program A) (answers : list Val) : Program A :=
  match answers with
  | [] => p
  | a :: rest =>
      match p with
      | Leaf _ => p
      | Op _ _ resume => follow (resume a) rest
      end
  end.

(** The value a program ends with when every operation is answered
    [undefined], as [resume()] does. *)
Fixpoint final (p : Program Val) : Val :=
  match p with
  | Leaf v => v
  | Op _ _ resume => final (resume VUndef)
  end.

(** Every operation of the tree, on every path, has a name and
    parameters satisfying [P]. *)
Fixpoint all_nodes {A : Type} (P : string -> list Val -> Prop) (p : Program A) : Prop :=
  match p with
  | Leaf _ => True
  | Op name params resume => P name params /\ forall a, all_nodes P (resume a)
  end.

(** Every leaf of the tree, on every path, holds a value satisfying [P]. *)
Fixpoint all_leaves {A : Type} (P : A -> Prop) (p : Program A) : Prop :=
  match p with
  | Leaf v => P v
  | Op _ _ resume => forall a, all_leaves P (resume a)
  end.

(** The text of a list of printed strings, in order. *)
Fixpoint text_of (printed : list Val) : string :=
  match printed with
  | [] => ""
  | VStr s :: rest => s ++ text_of rest
  | _ :: rest => text_of rest
  end.

(** Predicates on operation names, parameters and leaves used to
    delimit the programs a handler is meant for. *)
Definition is_print (name : string) : Prop := name = "print".

Definition prints_text (name : string) (params : list Val) : Prop :=
  name = "print" /\ exists s, arg 0 params = VStr s.

Definition is_decide (name : string) : Prop := name = "decide".

Definition is_number (v : Val) : Prop := exists n, v = VNum n.

(** The results of a tree of binary choices, left ([true]) branch first. *)
Fixpoint outcomes (p : Program Val) : list Val :=
  match p with
  | Leaf v => [v]
  | Op _ _ resume => outcomes (resume (VBool true)) ++ outcomes (resume (VBool false))
  end.

(** [chooseIn(m, n)]: [m > n ? fail : choose(m, chooseIn(m + 1, n))].
    The recursion is eager and [m + 1] is an addition of doubles, so it
    need not end: [fuel] bounds the depth of the calls and [None] is a
    run that has not returned within it. *)
Fixpoint chooseIn (fuel : nat) (m n : Z) : option (Program Val) :=
  match fuel with
  | O => None
  | S fuel' =>
      if m >? n then Some fail
      else
        match chooseIn fuel' (round_double (m + 1)) n with
        | Some rest => Some (choose (Leaf (VNum m)) rest)
        | None => None
        end
  end.

(** A value that [concat] appends as it is. *)
Definition not_array (v : Val) : Prop :=
  match v with
  | VArr _ => False
  | _ => True
  end.

(** A routine whose suspension points all yield programs that end with
    values other than arrays, along every run. *)
Fixpoint plain (gen : Gen) : Prop :=
  match gen with
  | Done _ => True
  | Yield value resume =>
      all_leaves (fun v => not_array v /\ plain (resume v)) value
  end.

(** [let a = yield get; let b = yield get; return [a, b]] *)
Definition two_gets_gen (_ : unit) : Gen :=
  Yield get (fun a =>
  Yield get (fun b =>
  Done (Leaf (VArr [a; b])))).

(** [bind(get, a => bind(get, b => [a, b]))], the same program written
    by hand. *)
Definition two_gets_by_hand : Program Val :=
  bind get (fun a => bind get (fun b => Leaf (VArr [a; b]))).

(** The value [run(tree)] returns.  The entry
    [print(x, resume) { console.info(x); resume() }] has no [return]:
    it calls the continuation, drops what it gives back and returns
    [undefined]; what it writes is [run_console].  (The entry [asynk]
    takes a host function and is left out.) *)
Definition run_print : Impl Val :=
  fun _params _resume => Leaf VUndef.

Definition run_model : Model Val Val := {|
  model_return := NoReturn;
  model_ops := table [("print", run_print)]
|}.

Definition run : Program Val -> Program Val := handler run_model.

(** The monoid theory and its free model:
    [interface Monoid<A> { zero(): A; add(left: A, right: A): A }],
    [type MTree<A>], [fold], [MNum], [MString] and [expr]. *)
Module MonoidTree.

Record Monoid (A : Type) : Type := {
  zero_of : A;
  add_of : A -> A -> A
}.

Inductive MTree (A : Type) : Type :=
| Pure (value : A) : MTree A
| Zero : MTree A
| Add (left right : MTree A) : MTree A.

Arguments Pure {A} value.
Arguments Zero {A}.
Arguments Add {A} left right.

Definition pure {A : Type} (value : A) : MTree A := Pure value.
Definition zero {A : Type} : MTree A := Zero.
Definition add {A : Type} (left right : MTree A) : MTree A := Add left right.

(** [fold(model)]: the evaluator of a tree in a model. *)
Fixpoint fold {A : Type} (model : Monoid A) (tree : MTree A) : A :=
  match tree with
  | Pure value => value
  | Zero => zero_of model
  | Add l r => add_of model (fold model l) (fold model r)
  end.

Definition MNum : Monoid Z :=
  {| zero_of := 0; add_of := fun left right => round_double (left + right) |}.

Definition MString : Monoid string :=
  {| zero_of := ""; add_of := fun left right => (left ++ right)%string |}.

(** [let expr = add(pure(10), add(pure(100), zero()))] *)
Definition expr : MTree Z := add (pure 10) (add (pure 100) zero).

(** The leaf values of a tree, left to right. *)
Fixpoint leaves {A : Type} (tree : MTree A) : list A :=
  match tree with
  | Pure value => [value]
  | Zero => []
  | Add l r => leaves l ++ leaves r
  end.

End MonoidTree.

(** The same theory through the generic operations:
    [zero()] is [operation("zero")],
    [add(left, right)] is [operation("add", [], b => (b ? left : right))],
    and the interpreter is
    [handler({ zero: () => 0, add(resume) { return resume(true) + resume(false) } })]. *)
Module FreeMonoid.

Definition zero : Program Val := operation0 "zero".

Definition add (left right : Program Val) : Program Val :=
  operation "add" [] (fun b => if truthy b then left else right).

(** [resume(true) + resume(false)]: the sum of two evaluated subtrees.
    When one of them is still an operation object JavaScript
    concatenates string forms; that case is given as [NaN] here. *)
Definition plus (left right : Program Val) : Program Val :=
  match left, right with
  | Leaf x, Leaf y => Leaf (js_add x y)
  | _, _ => Leaf VNaN
  end.

Definition interpreter_model : Model Val Val := {|
  model_return := NoReturn;
  model_ops := table [("zero", (fun _ _ => Leaf (VNum 0)) : Impl Val);
                      ("add", (fun _ resume =>
                                 plus (resume (VBool true)) (resume (VBool false))) : Impl Val)]
|}.

Definition interpreter : Program Val -> Program Val := handler interpreter_model.

(** A monoid tree over numbers written with the generic operations. *)
Fixpoint encode (tree : MonoidTree.MTree Z) : Program Val :=
  match tree with
  | MonoidTree.Pure value => Leaf (VNum value)
  | MonoidTree.Zero => zero
  | MonoidTree.Add l r => add (encode l) (encode r)
  end.

End FreeMonoid.

(** ** Laws of bind *)

Section BindLaws.
Context {A B : Type}.

Lemma bind_leaf (x : A) (f : A -> Program B) : bind (Leaf x) f = f x.
Proof. reflexivity. Qed.

Lemma bind_op (name : string) (params : list Val) (resume : Val -> Program A)
    (f : A -> Program B) :
    bind (Op name params resume) f = Op name params (fun a => bind (resume a) f).
Proof. reflexivity. Qed.

Lemma bind_ext (p : Program A) (f g : A -> Program B) :
    (forall a, f a = g a) -> bind p f = bind p g.
Proof.
  intros Hfg. replace g with f; [reflexivity|].
  apply functional_extensionality, Hfg.
Qed.
End BindLaws.

(** C1: bind is associative.  For every tree [p] and all continuation
    producing functions [f] and [g], [bind (bind p f) g] is the same tree
    as [bind p (fun a => bind (f a) g)]; the continuations are functions,
    so the equality covers every answer they may be resumed with, any
    number of times. *)
Theorem bind_assoc {A B C : Type} (p : Program A) (f : A -> Program B)
  (g : B -> Program C) :
  bind (bind p f) g = bind p (fun a => bind (f a) g).
Proof.
  induction p as [v | name params resume IH]; simpl.
  - reflexivity.
  - unfold operation. f_equal.
    apply functional_extensionality; intro a. apply IH.
Qed.

(** C3: the identity leaf laws.  [bind (pure x) f] is [f x], and binding
    [pure] onto every leaf of [p] gives [p] back. *)
Theorem bind_identity_laws {A B : Type} :
  (forall (x : A) (f : A -> Program B), bind (pure x) f = f x) /\
  (forall p : Program A, bind p pure = p).
Proof.
  split.
  - intros x f. reflexivity.
  - induction p as [v | name params resume IH]; simpl.
    + reflexivity.
    + unfold operation. f_equal.
      apply functional_extensionality; intro a. apply IH.
Qed.

(** C10: [seq] of no computation at all is the leaf [undefined]:
    [all []] is the leaf [[]] and indexing its last element, at [-1],
    yields [undefined]. *)
Theorem seq_empty :
  all (@nil (Program Val)) = Leaf [] /\ seq [] = Leaf VUndef.
Proof. split; reflexivity. Qed.

(** ** The builder and its replay *)

(** The body of [go], as an equation. *)
Lemma go_body {Args : Type} (gf : Args -> Gen) (args : Args) (history : list Val) :
  go gf args history =
  match replay (gf args) history with
  | Done value => value
  | Yield value _ =>
      bind value (fun x =>
        match answers x with
        | [] => Leaf VUndef
        | a :: more => go gf args (history ++ a :: more)
        end)
  end.
Proof.
  rewrite go_equation_1.
  generalize (inspect (replay (gf args) history)).
  intros [g Hg]. destruct g as [value | value resume].
  - transitivity value; [reflexivity | now rewrite Hg].
  - rewrite go_clause_1_equation_2. now rewrite Hg.
Qed.

(** The same with the call as the source writes it,
    [go(gf, args, history.concat(x))]. *)
Lemma go_concat {Args : Type} (gf : Args -> Gen) (args : Args) (history : list Val) :
  go gf args history =
  match replay (gf args) history with
  | Done value => value
  | Yield value _ =>
      bind value (fun x =>
        match answers x with
        | [] => Leaf VUndef
        | _ :: _ => go gf args (js_concat history x)
        end)
  end.
Proof.
  rewrite go_body. destruct (replay (gf args) history) as [value | value resume];
    [reflexivity |].
  apply bind_ext; intro x. unfold js_concat.
  destruct (answers x) as [| a more]; reflexivity.
Qed.

Lemma answers_not_array (x : Val) : not_array x -> answers x = [x].
Proof. destruct x; simpl; intro H; [reflexivity .. | contradiction]. Qed.

Lemma bind_ext_leaves {A B : Type} (p : Program A) (f g : A -> Program B) :
  all_leaves (fun v => f v = g v) p -> bind p f = bind p g.
Proof.
  induction p as [v | name params resume IH]; simpl; intro H.
  - exact H.
  - unfold operation. f_equal. apply functional_extensionality; intro a.
    apply IH, H.
Qed.

Lemma all_leaves_imp {A : Type} (P Q : A -> Prop) (p : Program A) :
  (forall v, P v -> Q v) -> all_leaves P p -> all_leaves Q p.
Proof.
  intro HPQ. induction p as [v | name params resume IH]; simpl.
  - apply HPQ.
  - intros Hp a. apply IH, Hp.
Qed.

Lemma go_from_state {Args : Type} (gf : Args -> Gen) (args : Args) (gen : Gen) :
  forall history, replay (gf args) history = gen -> plain gen ->
                  go gf args history = unroll gen.
Proof.
  induction gen as [value | value resume IH]; intros history Hgen Hplain.
  - rewrite go_body, Hgen. reflexivity.
  - rewrite go_body, Hgen. simpl. apply bind_ext_leaves.
    simpl in Hplain. revert Hplain. apply all_leaves_imp.
    intros v [Hv Hrest]. rewrite (answers_not_array v Hv).
    apply IH; [| exact Hrest]. rewrite replay_app, Hgen. reflexivity.
Qed.

(** When the programs a routine yields end with values other than
    arrays, restarting it and replaying a history builds the same tree
    as stepping the suspended routine on from where the history left it. *)
Lemma go_unroll {Args : Type} (gf : Args -> Gen) (args : Args) (history : list Val) :
  plain (replay (gf args) history) ->
  go gf args history = unroll (replay (gf args) history).
Proof. apply go_from_state. reflexivity. Qed.

Lemma go_start {Args : Type} (gf : Args -> Gen) (args : Args) :
  plain (gf args) -> go gf args [] = unroll (gf args).
Proof. apply (go_unroll gf args []). Qed.

(** The generator-entry evaluator, one node at a time. *)
Lemma handle_op (model : GenModel) (name : string) (params : list Val)
  (resume : Val -> Program Val) (impl : GenImpl) :
  gmodel_ops model name = Some impl ->
  plain (impl params (fun x => handle (resume x) model)) ->
  handle (Op name params resume) model =
  unroll (impl params (fun x => handle (resume x) model)).
Proof.
  intros Hin Hplain. simpl. rewrite Hin. rewrite go_start; [reflexivity | exact Hplain].
Qed.

(** One decision under [pickMax], when both branches come back as
    numbers. *)
Lemma pickMax_decide_step (params : list Val) (resume : Val -> Program Val)
  (m1 m2 : Z) :
  handle (resume (VBool true)) pickMax_model = Leaf (VNum m1) ->
  handle (resume (VBool false)) pickMax_model = Leaf (VNum m2) ->
  handle (Op "decide" params resume) pickMax_model = Leaf (VNum (Z.max m1 m2)).
Proof.
  intros H1 H2.
  rewrite (handle_op pickMax_model "decide" params resume (impl := pickMax_decide) eq_refl).
  - simpl. rewrite H1. simpl. rewrite H2. reflexivity.
  - simpl. rewrite H1. simpl. split; [exact I |]. rewrite H2. simpl. split; exact I.
Qed.

(** ** Forwarding of unhandled operations *)

Lemma evaluate_unhandled {A B : Type} (M : Model A B) (name : string)
  (params : list Val) (resume : Val -> Program A) :
  model_ops M name = None ->
  evaluate M (Op name params resume) =
  Op name params (fun a => evaluate M (resume a)).
Proof. intro Hout. simpl. rewrite Hout. reflexivity. Qed.

Lemma handle_unhandled (M : GenModel) (name : string)
  (params : list Val) (resume : Val -> Program Val) :
  gmodel_ops M name = None ->
  handle (Op name params resume) M =
  Op name params (fun x => handle (resume x) M).
Proof. intro Hout. simpl. rewrite Hout. reflexivity. Qed.

(** A model with no [return] and no entry for any operation of the
    tree gives the tree back. *)
Lemma evaluate_foreign {A : Type} (M : Model A A) (p : Program A) :
  model_return M = NoReturn ->
  all_ops (fun name => model_ops M name = None) p ->
  evaluate M p = p.
Proof.
  intros Hret. induction p as [v | name params resume IH]; intros Hops.
  - simpl. rewrite Hret. reflexivity.
  - destruct Hops as [Hname Hrest].
    rewrite evaluate_unhandled by exact Hname. f_equal.
    apply functional_extensionality; intro a. apply IH, Hrest.
Qed.

(** A model that has no entry for any operation of a tree only
    transforms its leaves. *)
Lemma evaluate_all_unhandled {A B : Type} (M : Model A B) (p : Program A) :
  all_ops (fun name => model_ops M name = None) p ->
  evaluate M p = bind p (apply_return (model_return M)).
Proof.
  induction p as [v | name params resume IH]; intros Hops.
  - reflexivity.
  - destruct Hops as [Hname Hrest].
    rewrite evaluate_unhandled by exact Hname. simpl. unfold operation. f_equal.
    apply functional_extensionality; intro a. apply IH, Hrest.
Qed.

(** Stacking over a model that has no [return] and handles nothing the
    program performs is running the outer handler alone. *)
Corollary stack_over_foreign {A C : Type} (M : Model A A) (outer : Model A C)
  (p : Program A) :
  model_return M = NoReturn ->
  all_ops (fun name => model_ops M name = None) p ->
  evaluate outer (evaluate M p) = evaluate outer p.
Proof.
  intros Hret Hops. rewrite evaluate_foreign by assumption. reflexivity.
Qed.

(** C2 (as amended): forwarding is transparent.  Under a model [M] with
    no entry for [E], a node named [E] comes back as a node with the
    same name and parameters whose continuation is the [M]-evaluation of
    the original one; an outer handler that defines [E] then receives
    those parameters and the continuation that resumes under [M] and
    then under itself.  When [M] has no entry for any operation of the
    program, stacking the outer handler over [M]'s output is running the
    outer handler alone over the program with [M]'s leaf transform bound
    onto its leaves, which is the program itself when [M] has no
    [return]. *)
Theorem forwarding_transparent {A B C : Type} (M : Model A B) (outer : Model B C)
  (E : string) (params : list Val) (resume : Val -> Program A) (implE : Impl C) :
  model_ops M E = None ->
  model_ops outer E = Some implE ->
  evaluate M (Op E params resume) =
    Op E params (fun a => evaluate M (resume a)) /\
  evaluate outer (evaluate M (Op E params resume)) =
    implE params (fun a => evaluate outer (evaluate M (resume a))) /\
  (all_ops (fun name => model_ops M name = None) (Op E params resume) ->
   evaluate outer (evaluate M (Op E params resume)) =
   evaluate outer (bind (Op E params resume) (apply_return (model_return M)))).
Proof.
  intros Hout Hin. split; [|split].
  - apply evaluate_unhandled, Hout.
  - rewrite evaluate_unhandled by exact Hout. simpl. rewrite Hin. reflexivity.
  - intro Hops. rewrite (evaluate_all_unhandled M _ Hops). reflexivity.
Qed.

Lemma forwarding_transparent_witness :
  evaluate hprintRev_model get = Op "get" [] (fun a => evaluate hprintRev_model (id_resume a)) /\
  evaluate state_model (evaluate hprintRev_model get) =
    state_get [] (fun a => evaluate state_model (evaluate hprintRev_model (id_resume a))) /\
  evaluate state_model (evaluate hprintRev_model get) =
    evaluate state_model (bind get (apply_return (model_return hprintRev_model))).
Proof.
  destruct (@forwarding_transparent Val Val Carrier hprintRev_model state_model
              "get" [] id_resume state_get eq_refl eq_refl) as [H1 [H2 H3]].
  split; [exact H1 | split; [exact H2 |]].
  apply H3. simpl. split; [reflexivity | intro; exact I].
Defined.

(** C2 as stated fails when the inner model transforms leaves:
    [hprintCollect] has no entry for [get] and [state] defines it, yet
    [state(hprintCollect(get))(5)] is [[5, ""]] while [state(get)(5)] is [5]. *)
Lemma stacking_not_transparent_in_general :
  model_ops hprintCollect_model "get" = None /\
  model_ops state_model "get" = Some state_get /\
  run_with (state (hprintCollect get)) (VNum 5) = Some (Leaf (VArr [VNum 5; VStr ""])) /\
  run_with (state get) (VNum 5) = Some (Leaf (VNum 5)) /\
  state (hprintCollect get) <> state get.
Proof.
  repeat split.
  intro Heq. apply (f_equal (fun p => run_with p (VNum 5))) in Heq.
  vm_compute in Heq. discriminate Heq.
Qed.

Lemma evaluate_prefix_unhandled {A B C : Type} (M : Model B C) (p : Program A)
  (f : A -> Program B) :
  all_ops (fun name => model_ops M name = None) p ->
  evaluate M (bind p f) = bind p (fun a => evaluate M (f a)).
Proof.
  induction p as [v | name params resume IH]; intros Hops; [reflexivity |].
  destruct Hops as [Hname Hrest]. simpl. rewrite Hname.
  unfold operation. f_equal. apply functional_extensionality; intro a. apply IH, Hrest.
Qed.

(** C5 (as amended): an unhandled effect is forwarded.  Under a model
    with no entry for [frobnicate], a program whose current operation is
    [frobnicate] evaluates, in either evaluator, to an operation node
    named [frobnicate] with the same parameters and the evaluated
    continuation: a residual tree and not a leaf.  The same holds behind
    a prefix of operations the model has no entry for, which stays in
    place in front of that node. *)
Theorem unhandled_effect_forwarded {A B : Type} (M : Model A B) (G : GenModel)
  (params : list Val) (resume : Val -> Program A) (resume' : Val -> Program Val)
  (prefix : Program Val) :
  model_ops M "frobnicate" = None ->
  gmodel_ops G "frobnicate" = None ->
  all_ops (fun name => model_ops M name = None) prefix ->
  (evaluate M (Op "frobnicate" params resume) =
     Op "frobnicate" params (fun a => evaluate M (resume a)) /\
   unhandled_name (evaluate M (Op "frobnicate" params resume)) = Some "frobnicate" /\
   is_operation (evaluate M (Op "frobnicate" params resume)) = true /\
   forall v, evaluate M (Op "frobnicate" params resume) <> Leaf v) /\
  (handle (Op "frobnicate" params resume') G =
     Op "frobnicate" params (fun x => handle (resume' x) G) /\
   unhandled_name (handle (Op "frobnicate" params resume') G) = Some "frobnicate" /\
   is_operation (handle (Op "frobnicate" params resume') G) = true /\
   forall v, handle (Op "frobnicate" params resume') G <> Leaf v) /\
  evaluate M (bind prefix (fun _ => Op "frobnicate" params resume)) =
    bind prefix (fun _ => Op "frobnicate" params (fun a => evaluate M (resume a))).
Proof.
  intros HM HG Hprefix. split; [| split].
  - rewrite evaluate_unhandled by exact HM. repeat split. discriminate.
  - rewrite handle_unhandled by exact HG. repeat split. discriminate.
  - rewrite evaluate_prefix_unhandled by exact Hprefix.
    apply bind_ext; intro a. apply evaluate_unhandled, HM.
Qed.

Lemma unhandled_effect_forwarded_witness :
  unhandled_name (state (operation1 "frobnicate" [VNum 1])) = Some "frobnicate" /\
  unhandled_name (pickMax (operation1 "frobnicate" [VNum 1])) = Some "frobnicate" /\
  state (bind (print (VStr "A")) (fun _ => operation1 "frobnicate" [VNum 1])) =
    bind (print (VStr "A"))
         (fun _ => Op "frobnicate" [VNum 1] (fun a => state (id_resume a))).
Proof.
  pose proof (@unhandled_effect_forwarded Val Carrier state_model pickMax_model
                [VNum 1] id_resume id_resume (print (VStr "A")) eq_refl eq_refl
                (conj eq_refl (fun _ => I)))
    as [[_ [H1 _]] [[_ [H2 _]] H3]].
  split; [exact H1 | split; [exact H2 | exact H3]].
Defined.

(** C5 as stated fails behind an operation the model handles: [run]
    has no entry for [frobnicate], yet for the program that prints "A"
    and then performs [frobnicate] it writes "A" and returns
    [undefined], a plain value with no trace of the operation. *)
Lemma unhandled_effect_swallowed :
  model_ops run_model "frobnicate" = None /\
  run (bind (print (VStr "A")) (fun _ => operation0 "frobnicate")) = Leaf VUndef /\
  run_console (bind (print (VStr "A")) (fun _ => operation0 "frobnicate")) [] =
    [VStr "A"].
Proof. repeat split. Qed.

(** ** Multi-shot resumption by replay *)

(** C4 (defect of the code): resuming by replay is not the hand-written
    tree when an answer is an array.  [go] records an answer with
    [history.concat(x)], which appends the elements of an array instead
    of the array.  For the routine
    [let a = yield get; let b = yield get; return [a, b]], resuming the
    first [get] with [[1, 2]] replays the history [1, 2]: the routine
    takes 1 for the first [get] and 2 for the second and returns
    [[1, 2]], where the hand-written [bind] tree is still waiting on its
    second [get]; under the state handler started on the state [[1, 2]]
    the two give [[1, 2]] and [[[1, 2], [1, 2]]]. *)
Theorem go_flattens_array_answer :
  follow (go two_gets_gen tt []) [VArr [VNum 1; VNum 2]] =
    Leaf (VArr [VNum 1; VNum 2]) /\
  follow two_gets_by_hand [VArr [VNum 1; VNum 2]] =
    Op "get" [] (fun b => Leaf (VArr [VArr [VNum 1; VNum 2]; b])) /\
  run_with (state (go two_gets_gen tt [])) (VArr [VNum 1; VNum 2]) =
    Some (Leaf (VArr [VNum 1; VNum 2])) /\
  run_with (state two_gets_by_hand) (VArr [VNum 1; VNum 2]) =
    Some (Leaf (VArr [VArr [VNum 1; VNum 2]; VArr [VNum 1; VNum 2]])) /\
  go two_gets_gen tt [] <> two_gets_by_hand.
Proof.
  assert (Hdone : go two_gets_gen tt [VNum 1; VNum 2] = Leaf (VArr [VNum 1; VNum 2])).
  { rewrite go_body. reflexivity. }
  assert (Hgo : follow (go two_gets_gen tt []) [VArr [VNum 1; VNum 2]] =
                Leaf (VArr [VNum 1; VNum 2])).
  { rewrite go_body. simpl. exact Hdone. }
  split; [exact Hgo | split; [reflexivity | split; [| split; [reflexivity |]]]].
  - rewrite go_body. simpl. rewrite Hdone. reflexivity.
  - intro Heq. rewrite Heq in Hgo. discriminate Hgo.
Qed.



(** ** Scenarios *)

Lemma pf_tree : pf = unroll (pf_gen tt).
Proof.
  unfold pf. apply go_start. simpl. intro b.
  destruct (truthy b); simpl; (split; [exact I |]); intro b';
    destruct (truthy b'); simpl; split; exact I.
Qed.

(** C9: reverse-order output.  Under the handler that resumes before it
    prints, the program printing "A", "B", "C" becomes the tree that
    prints "C", then "B", then "A"; run on the console it writes them in
    that order, while the program itself writes "A", "B", "C". *)
Theorem reverse_order_output :
  hprintRev abc =
    Op "print" [VStr "C"] (fun _ =>
    Op "print" [VStr "B"] (fun _ =>
    Op "print" [VStr "A"] id_resume)) /\
  run_console (hprintRev abc) [] = [VStr "C"; VStr "B"; VStr "A"] /\
  run_console abc [] = [VStr "A"; VStr "B"; VStr "C"].
Proof.
  assert (H3 : go abc_gen tt [VUndef; VUndef; VUndef] = Leaf VUndef).
  { rewrite go_body. reflexivity. }
  assert (H2 : go abc_gen tt [VUndef; VUndef] =
               Op "print" [VStr "C"] (fun x =>
                 match answers x with
                 | [] => Leaf VUndef
                 | a :: more => go abc_gen tt ([VUndef; VUndef] ++ a :: more)
                 end)).
  { rewrite go_body. reflexivity. }
  assert (H1 : go abc_gen tt [VUndef] =
               Op "print" [VStr "B"] (fun x =>
                 match answers x with
                 | [] => Leaf VUndef
                 | a :: more => go abc_gen tt ([VUndef] ++ a :: more)
                 end)).
  { rewrite go_body. reflexivity. }
  assert (H0 : abc =
               Op "print" [VStr "A"] (fun x =>
                 match answers x with
                 | [] => Leaf VUndef
                 | a :: more => go abc_gen tt ([] ++ a :: more)
                 end)).
  { unfold abc. rewrite go_body. reflexivity. }
  assert (Hrev : hprintRev abc =
            Op "print" [VStr "C"] (fun _ =>
            Op "print" [VStr "B"] (fun _ =>
            Op "print" [VStr "A"] id_resume))).
  { rewrite H0. unfold hprintRev, handler. simpl. unfold hprintRev_print. simpl.
    rewrite H1. simpl. unfold hprintRev_print. simpl.
    rewrite H2. simpl. unfold hprintRev_print. simpl.
    rewrite H3. reflexivity. }
  split; [exact Hrev | split].
  - rewrite Hrev. reflexivity.
  - rewrite H0. simpl. rewrite H1. simpl. rewrite H2. simpl. rewrite H3. reflexivity.
Qed.

(** C8: maximizing choice.  Choosing [x] from 15 and 30, then [y] from
    5 and 10, and returning [x - y], the maximizing handler returns 25,
    the largest of the four differences. *)
Theorem maximizing_choice :
  pickMax pf = Leaf (VNum 25) /\
  Math_max (Math_max (js_sub (VNum 15) (VNum 5)) (js_sub (VNum 15) (VNum 10)))
           (Math_max (js_sub (VNum 30) (VNum 5)) (js_sub (VNum 30) (VNum 10)))
    = VNum 25.
Proof.
  split; [| reflexivity].
  unfold pickMax, handler_go. rewrite pf_tree. simpl unroll.
  apply (@pickMax_decide_step [] _ 10 25).
  - apply (@pickMax_decide_step [] _ 10 5); reflexivity.
  - apply (@pickMax_decide_step [] _ 25 20); reflexivity.
Qed.

(** C7: state threading.  The program that gets, puts the gotten value
    plus 10 and gets again, handled by the state handler and applied to
    the initial state 5, yields the value 15 and nothing else: the
    result is the leaf 15, with no state beside it. *)
Theorem state_threading :
  run_with (state get_put_get) (VNum 5) = Some (Leaf (VNum 15)).
Proof.
  assert (H3 : go get_put_get_gen tt [VNum 5; VUndef; VNum 15] = Leaf (VNum 15)).
  { rewrite go_body. reflexivity. }
  assert (H2 : go get_put_get_gen tt [VNum 5; VUndef] =
               Op "get" [] (fun x =>
                 match answers x with
                 | [] => Leaf VUndef
                 | a :: more => go get_put_get_gen tt ([VNum 5; VUndef] ++ a :: more)
                 end)).
  { rewrite go_body. reflexivity. }
  assert (H1 : go get_put_get_gen tt [VNum 5] =
               Op "put" [VNum 15] (fun x =>
                 match answers x with
                 | [] => Leaf VUndef
                 | a :: more => go get_put_get_gen tt ([VNum 5] ++ a :: more)
                 end)).
  { rewrite go_body. reflexivity. }
  unfold get_put_get. rewrite go_body. unfold state, handler. simpl.
  unfold arg; simpl. rewrite H1. cbn.
  unfold arg; simpl. rewrite H2. simpl.
  unfold arg; simpl. rewrite H3. reflexivity.
Qed.

(** ** The carrier of the state handler *)

Lemma ap_leaf {A B : Type} (f : list A -> Program B) (xs : list A) :
  ap (Leaf f) (map Leaf xs) = f xs.
Proof.
  unfold ap. simpl.
  assert (Hall : all (map Leaf xs) = Leaf xs).
  { induction xs as [| x rest IH]; simpl; [reflexivity | now rewrite IH]. }
  rewrite Hall. reflexivity.
Qed.

(** The three entries of the state model: each gives a leaf holding a
    function of the state. *)
Lemma state_leaf (x : Val) : state (Leaf x) = Leaf (fun _ => Leaf x).
Proof. reflexivity. Qed.

Lemma state_get_node (params : list Val) (resume : Val -> Program Val) :
  state (Op "get" params resume) =
  Leaf (fun args => ap (state (resume (arg 0 args))) [Leaf (arg 0 args)]).
Proof. reflexivity. Qed.

Lemma state_put_node (params : list Val) (resume : Val -> Program Val) :
  state (Op "put" params resume) =
  Leaf (fun _ => ap (state (resume VUndef)) [Leaf (arg 0 params)]).
Proof. reflexivity. Qed.

(** C6 (as amended): the carrier of the state handler is a function
    from the old state to the result value.  For every program of [get]
    and [put] operations the handled result is a leaf holding a
    function; called on a state it returns the value that explicit
    state passing produces from that state, and only that value: the new
    state is passed on to the continuation's function through [ap] and
    is not part of the result. *)
Theorem state_carrier (p : Program Val) :
  all_ops get_or_put p ->
  exists f : Carrier,
    state p = Leaf f /\
    forall args, f args = Leaf (fst (exec p (arg 0 args))).
Proof.
  induction p as [x | name params resume IH]; intros Hops.
  - exists (fun _ => Leaf x). split; reflexivity.
  - destruct Hops as [[Hname | Hname] Hrest]; subst name.
    + rewrite state_get_node. eexists. split; [reflexivity |].
      intro args. simpl exec.
      destruct (IH (arg 0 args) (Hrest _)) as [f [Hf Hrun]].
      rewrite Hf. exact (eq_trans (ap_leaf f [arg 0 args]) (Hrun _)).
    + rewrite state_put_node. eexists. split; [reflexivity |].
      intro args. simpl exec.
      destruct (IH VUndef (Hrest _)) as [f [Hf Hrun]].
      rewrite Hf. exact (eq_trans (ap_leaf f [arg 0 params]) (Hrun _)).
Qed.

Lemma state_carrier_witness :
  exists f : Carrier,
    state (bind get (fun x => put (js_add x (VNum 10)))) = Leaf f /\
    forall args,
      f args =
      Leaf (fst (exec (bind get (fun x => put (js_add x (VNum 10)))) (arg 0 args))).
Proof.
  apply (state_carrier (bind get (fun x => put (js_add x (VNum 10))))).
  simpl. split; [left; reflexivity |].
  intro a. split; [right; reflexivity | intro b; exact I].
Defined.

(** C6 as stated fails: the function the state handler returns for the
    program that is just the value 1 gives, on the state 5, the plain
    value 1 and no pair of a value and a state. *)
Lemma state_carrier_returns_no_pair :
  run_with (state (Leaf (VNum 1))) (VNum 5) = Some (Leaf (VNum 1)) /\
  ~ (exists v s' : Val,
        run_with (state (Leaf (VNum 1))) (VNum 5) = Some (Leaf (VArr [v; s']))).
Proof.
  split; [reflexivity |].
  intros [v [s' H]]. simpl in H. discriminate H.
Qed.

(** ** Sequencing combinators *)

Lemma bind_bind {A B C : Type} (p : Program A) (f : A -> Program B)
  (g : B -> Program C) :
  bind (bind p f) g = bind p (fun a => bind (f a) g).
Proof.
  induction p as [v | name params resume IH]; simpl; [reflexivity |].
  unfold operation. f_equal. apply functional_extensionality; intro a. apply IH.
Qed.

Lemma bind_leaf_r {A : Type} (p : Program A) : bind p (fun x => Leaf x) = p.
Proof.
  induction p as [v | name params resume IH]; simpl; [reflexivity |].
  unfold operation. f_equal. apply functional_extensionality; intro a. apply IH.
Qed.

Lemma all_ops_bind {A B : Type} (P : string -> Prop) (p : Program A)
  (f : A -> Program B) :
  all_ops P p -> (forall a, all_ops P (f a)) -> all_ops P (bind p f).
Proof.
  intros Hp Hf. induction p as [v | name params resume IH]; simpl.
  - apply Hf.
  - destruct Hp as [Hname Hrest]. split; [exact Hname |].
    intro a. apply IH, Hrest.
Qed.

Lemma all_leaves_bind {A B : Type} (Q : B -> Prop) (p : Program A)
  (f : A -> Program B) :
  all_leaves (fun v => all_leaves Q (f v)) p -> all_leaves Q (bind p f).
Proof.
  induction p as [v | name params resume IH]; simpl; intro Hp.
  - exact Hp.
  - intro a. apply IH, Hp.
Qed.

Lemma all_leaves_weaken {A : Type} (P Q : A -> Prop) (p : Program A) :
  (forall v, P v -> Q v) -> all_leaves P p -> all_leaves Q p.
Proof.
  intro HPQ. induction p as [v | name params resume IH]; simpl.
  - apply HPQ.
  - intros Hp a. apply IH, Hp.
Qed.

Lemma js_index_last (xs : list Val) (y : Val) :
  js_index (xs ++ [y]) (Z.of_nat (List.length (xs ++ [y])) - 1) = y.
Proof.
  unfold js_index. rewrite length_app. simpl List.length.
  replace (Z.of_nat (List.length xs + 1) - 1) with (Z.of_nat (List.length xs)) by lia.
  destruct (Z.ltb_spec (Z.of_nat (List.length xs)) 0) as [Hneg | _]; [lia |].
  rewrite Nat2Z.id. rewrite app_nth2 by lia. rewrite Nat.sub_diag. reflexivity.
Qed.

Lemma all_of_values_aux {A : Type} (xs : list A) :
  all (map Leaf xs) = Leaf xs.
Proof.
  induction xs as [| x rest IH]; simpl; [reflexivity | now rewrite IH].
Qed.

(** [all] of plain values collects them, in order, without performing
    any operation, so [seq] of plain values is the last of them. *)
Theorem all_of_values {A : Type} (xs : list A) (vs : list Val) (v : Val) :
  all (map Leaf xs) = Leaf xs /\
  seq (map Leaf (vs ++ [v])) = Leaf v.
Proof.
  split; [apply all_of_values_aux |].
  unfold seq. rewrite all_of_values_aux. simpl. f_equal. apply js_index_last.
Qed.

Lemma all_app_aux {A : Type} (cs1 cs2 : list (Program A)) :
  all (cs1 ++ cs2) =
  bind (all cs1) (fun xs => bind (all cs2) (fun ys => Leaf (xs ++ ys)%list)).
Proof.
  induction cs1 as [| c rest IH]; simpl.
  - symmetry. apply bind_leaf_r.
  - rewrite bind_bind. apply bind_ext; intro x.
    rewrite IH. rewrite !bind_bind. apply bind_ext; intro xs. simpl.
    rewrite !bind_bind. apply bind_ext; intro ys. reflexivity.
Qed.

(** [all] runs its computations left to right: collecting a
    concatenation is collecting the first part, then the second, and
    appending the two result lists. *)
Theorem all_app {A : Type} (cs1 cs2 : list (Program A)) :
  all (cs1 ++ cs2) =
  bind (all cs1) (fun xs => bind (all cs2) (fun ys => Leaf (xs ++ ys)%list)).
Proof. apply all_app_aux. Qed.

(** [all] gives one result per computation: every list it can end with
    is as long as the list of computations. *)
Theorem all_length {A : Type} (cs : list (Program A)) :
  all_leaves (fun xs => List.length xs = List.length cs) (all cs).
Proof.
  induction cs as [| c rest IH]; simpl.
  - reflexivity.
  - apply all_leaves_bind.
    assert (H : forall p : Program A,
      all_leaves (fun v => all_leaves (fun xs => List.length xs = S (List.length rest))
                             (bind (all rest) (fun xs => Leaf (v :: xs)))) p).
    { intro p. induction p as [v | name params resume IHp]; simpl.
      - apply all_leaves_bind.
        apply (all_leaves_weaken _ _ _ (fun xs (H : List.length xs = List.length rest) =>
                 f_equal S H : all_leaves _ (Leaf (v :: xs)))).
        exact IH.
      - intro a. apply IHp. }
    apply H.
Qed.

(** [seq] keeps only the last result: it runs every computation in
    order and ends with whatever the last one ends with. *)
Theorem seq_last (cs : list (Program Val)) (c : Program Val) :
  seq (cs ++ [c]) = bind (all cs) (fun _ => c).
Proof.
  unfold seq. rewrite all_app_aux. rewrite bind_bind. apply bind_ext; intro xs.
  simpl. rewrite !bind_bind. simpl.
  transitivity (bind c (fun y => Leaf y)); [| apply bind_leaf_r].
  apply bind_ext; intro y. simpl. f_equal. apply js_index_last.
Qed.

(** [bind] invents no operation: when the operations of [p] and of
    every tree [f] produces have names in [P], so do those of [bind p f]. *)
Theorem bind_keeps_operations {A B : Type} (P : string -> Prop) (p : Program A)
  (f : A -> Program B) :
  all_ops P p -> (forall a, all_ops P (f a)) -> all_ops P (bind p f).
Proof. apply all_ops_bind. Qed.

Lemma bind_keeps_operations_witness :
  all_ops (fun name => name = "get" \/ name = "put")
          (bind get (fun x => put (js_add x (VNum 10)))).
Proof.
  apply (@bind_keeps_operations Val Val (fun name => name = "get" \/ name = "put")
           get (fun x => put (js_add x (VNum 10)))).
  - simpl. split; [left; reflexivity | intro; exact I].
  - intro a. simpl. split; [right; reflexivity | intro; exact I].
Defined.

(** ** Handlers: missing entries and the two evaluators *)

(** A handler passes through a prefix it has no entry for: when the
    model handles none of the operations of [p], evaluating
    [bind p f] keeps the tree of [p] and evaluates what [f] binds onto
    its leaves. *)
Theorem evaluate_bind_foreign {A B C : Type} (M : Model B C) (p : Program A)
  (f : A -> Program B) :
  all_ops (fun name => model_ops M name = None) p ->
  evaluate M (bind p f) = bind p (fun a => evaluate M (f a)).
Proof.
  induction p as [v | name params resume IH]; intros Hops.
  - reflexivity.
  - destruct Hops as [Hname Hrest]. simpl. rewrite Hname.
    unfold operation. f_equal.
    apply functional_extensionality; intro a. apply IH, Hrest.
Qed.

Lemma evaluate_bind_foreign_witness :
  evaluate state_model (bind (print (VStr "A")) (fun _ => get)) =
  bind (print (VStr "A")) (fun _ => evaluate state_model get).
Proof.
  apply (@evaluate_bind_foreign Val Val Carrier state_model
           (print (VStr "A")) (fun _ => get)).
  simpl. split; [reflexivity | intro; exact I].
Defined.

(** ** The builder and its history *)

Lemma replay_done (value : Program Val) (x : Val) (history : list Val) :
  replay (Done value) (x :: history) = Done (Leaf VUndef).
Proof.
  unfold replay. simpl. induction history as [| y rest IH]; simpl; [reflexivity | exact IH].
Qed.

(** A history longer than the routine has suspension points: once the
    routine has returned, every further answer gets
    [{ value: undefined, done: true }], so [go] returns [undefined]. *)
Theorem go_history_too_long {Args : Type} (gf : Args -> Gen) (args : Args)
  (history : list Val) (value : Program Val) (x : Val) (more : list Val) :
  replay (gf args) history = Done value ->
  go gf args (history ++ x :: more) = Leaf VUndef.
Proof.
  intro Hdone. rewrite go_body, replay_app, Hdone, replay_done. reflexivity.
Qed.

Lemma go_history_too_long_witness :
  go pf_gen tt ([VNum 15; VNum 5] ++ VNum 0 :: []) = Leaf VUndef.
Proof.
  apply (@go_history_too_long unit pf_gen tt [VNum 15; VNum 5]
           (Leaf (js_sub (VNum 15) (VNum 5))) (VNum 0) []).
  reflexivity.
Defined.

(** ** Output handlers *)

Lemma run_console_acc (p : Program Val) (console : list Val) :
  run_console p console = (console ++ run_console p [])%list.
Proof.
  revert console. induction p as [v | name params resume IH]; intro console; simpl.
  - now rewrite app_nil_r.
  - destruct (String.eqb name "print").
    + rewrite IH. rewrite (IH VUndef [arg 0 params]). now rewrite <- app_assoc.
    + now rewrite app_nil_r.
Qed.

Lemma run_console_bind_prints (p : Program Val) (f : Val -> Program Val)
  (console : list Val) :
  all_ops is_print p ->
  run_console (bind p f) console = run_console (f (final p)) (run_console p console).
Proof.
  revert console. induction p as [v | name params resume IH]; intros console Hops.
  - reflexivity.
  - destruct Hops as [Hname Hrest]. unfold is_print in Hname. subst name. simpl.
    apply IH, Hrest.
Qed.

Lemma hprintRev_prints (p : Program Val) :
  all_ops is_print p -> all_ops is_print (hprintRev p).
Proof.
  induction p as [v | name params resume IH]; intros Hops.
  - exact I.
  - destruct Hops as [Hname Hrest]. unfold is_print in Hname. subst name.
    change (all_ops is_print
              (bind (hprintRev (resume VUndef)) (fun _ => print (arg 0 params)))).
    apply all_ops_bind; [apply IH, Hrest |].
    intros _. simpl. split; [reflexivity | intro; exact I].
Qed.

(** Console order follows program order: for a program [p] of print
    operations, running [bind p f] writes what [p] writes and then what
    the continuation writes for the value [p] ends with. *)
Theorem run_console_bind (p : Program Val) (f : Val -> Program Val)
  (console : list Val) :
  all_ops is_print p ->
  run_console (bind p f) console =
  (console ++ run_console p [] ++ run_console (f (final p)) [])%list.
Proof.
  intro Hops. rewrite run_console_bind_prints by exact Hops.
  rewrite run_console_acc. rewrite (run_console_acc p console).
  now rewrite <- app_assoc.
Qed.

Lemma run_console_bind_witness :
  run_console (bind (print (VStr "A")) (fun _ => print (VStr "B"))) [] =
  ([] ++ run_console (print (VStr "A")) [] ++
   run_console (print (VStr "B")) [])%list.
Proof.
  apply (run_console_bind (print (VStr "A")) (fun _ => print (VStr "B")) []).
  simpl. split; [reflexivity | intro; exact I].
Defined.

Lemma hprintRev_reverses_aux (p : Program Val) (console : list Val) :
  all_ops is_print p ->
  run_console (hprintRev p) console = (console ++ rev (run_console p []))%list.
Proof.
  revert console. induction p as [v | name params resume IH]; intros console Hops.
  - simpl. now rewrite app_nil_r.
  - destruct Hops as [Hname Hrest]. unfold is_print in Hname. subst name.
    change (hprintRev (Op "print" params resume))
      with (bind (hprintRev (resume VUndef)) (fun _ => print (arg 0 params))).
    rewrite run_console_bind_prints by (apply hprintRev_prints, Hrest).
    rewrite IH by apply Hrest. simpl.
    rewrite (run_console_acc (resume VUndef) [arg 0 params]).
    simpl. now rewrite <- app_assoc.
Qed.

(** [hprintRev] reverses the output of every program of print
    operations, whatever its length or shape: what the handled program
    writes is what the program writes, last line first. *)
Theorem hprintRev_reverses (p : Program Val) (console : list Val) :
  all_ops is_print p ->
  run_console (hprintRev p) console = (console ++ rev (run_console p []))%list.
Proof. apply hprintRev_reverses_aux. Qed.

Lemma hprintRev_reverses_witness :
  run_console (hprintRev (bind (print (VStr "A")) (fun _ => print (VStr "B")))) [] =
  ([] ++ rev (run_console (bind (print (VStr "A")) (fun _ => print (VStr "B"))) []))%list.
Proof.
  apply (hprintRev_reverses (bind (print (VStr "A")) (fun _ => print (VStr "B"))) []).
  simpl. split; [reflexivity |]. intro a. split; [reflexivity | intro; exact I].
Defined.

Lemma all_prints_ops (xs : list Val) : all_ops is_print (all (map print xs)).
Proof.
  induction xs as [| x rest IH]; simpl; [exact I |].
  split; [reflexivity |]. intro a.
  apply all_ops_bind; [exact IH | intros; exact I].
Qed.

Lemma all_prints_console (xs : list Val) (g : list Val -> Program Val)
  (console : list Val) :
  run_console (bind (all (map print xs)) g) console =
  run_console (g (map (fun _ => VUndef) xs)) (console ++ xs)%list.
Proof.
  revert g console. induction xs as [| x rest IH]; intros g console; simpl.
  - now rewrite app_nil_r.
  - rewrite bind_bind. rewrite IH. simpl. now rewrite <- app_assoc.
Qed.

(** [seq] of prints, [seq(print(x1), ..., print(xn))], writes
    [x1 ... xn] in order, and under [hprintRev] writes [xn ... x1]. *)
Theorem seq_prints (xs : list Val) :
  run_console (seq (map print xs)) [] = xs /\
  run_console (hprintRev (seq (map print xs))) [] = rev xs.
Proof.
  assert (Hops : all_ops is_print (seq (map print xs))).
  { unfold seq. apply all_ops_bind; [apply all_prints_ops | intros; exact I]. }
  assert (Hrun : run_console (seq (map print xs)) [] = xs).
  { unfold seq. rewrite all_prints_console. reflexivity. }
  split; [exact Hrun |].
  rewrite hprintRev_reverses_aux by exact Hops. now rewrite Hrun.
Qed.

(** [hprintCollect] discharges every print of a program printing
    strings: the result is the pair of the value the program ends with
    and the text it printed, in program order. *)
Theorem hprintCollect_collects (p : Program Val) :
  all_nodes prints_text p ->
  hprintCollect p = Leaf (VArr [final p; VStr (text_of (run_console p []))]).
Proof.
  induction p as [v | name params resume IH]; intros Hnodes.
  - reflexivity.
  - destruct Hnodes as [[Hname [s Hs]] Hrest]. subst name.
    change (hprintCollect (Op "print" params resume))
      with (bind (hprintCollect (resume VUndef))
                 (fun r => Leaf (VArr [js_get r 0; js_add (arg 0 params) (js_get r 1)]))).
    rewrite IH by apply Hrest. simpl.
    rewrite (run_console_acc (resume VUndef) [arg 0 params]).
    rewrite Hs. reflexivity.
Qed.

Lemma hprintCollect_collects_witness :
  hprintCollect (bind (print (VStr "A")) (fun _ => print (VStr "B"))) =
  Leaf (VArr [final (bind (print (VStr "A")) (fun _ => print (VStr "B")));
              VStr (text_of (run_console
                      (bind (print (VStr "A")) (fun _ => print (VStr "B"))) []))]).
Proof.
  apply (hprintCollect_collects (bind (print (VStr "A")) (fun _ => print (VStr "B")))).
  simpl. split; [split; [reflexivity | exists "A"; reflexivity] |].
  intro a. split; [split; [reflexivity | exists "B"; reflexivity] | intro; exact I].
Defined.

(** ** Choice *)

(** [pickMax] returns the maximum over every way of deciding: on a
    tree of [decide] operations with numbers at its leaves the result is
    a leaf, its number is one of the outcomes and no outcome exceeds it. *)
Theorem pickMax_maximum (p : Program Val) :
  all_ops is_decide p ->
  all_leaves is_number p ->
  exists m, pickMax p = Leaf (VNum m) /\
            In (VNum m) (outcomes p) /\
            forall n, In (VNum n) (outcomes p) -> n <= m.
Proof.
  unfold pickMax, handler_go.
  induction p as [v | name params resume IH]; intros Hops Hnum.
  - destruct Hnum as [n Hn]. subst v. exists n. simpl. repeat split.
    + left; reflexivity.
    + intros n' [Heq | []]. injection Heq as Heq. lia.
  - destruct Hops as [Hname Hrest]. unfold is_decide in Hname. subst name.
    destruct (IH (VBool true) (Hrest _) (Hnum _)) as [m1 [H1 [Hin1 Hmax1]]].
    destruct (IH (VBool false) (Hrest _) (Hnum _)) as [m2 [H2 [Hin2 Hmax2]]].
    exists (Z.max m1 m2). split; [| split].
    + apply pickMax_decide_step; assumption.
    + simpl. apply in_or_app.
      destruct (Z.max_spec m1 m2) as [[_ Hm] | [_ Hm]]; rewrite Hm; [right | left]; assumption.
    + intros n Hin. simpl in Hin. apply in_app_or in Hin.
      destruct Hin as [Hin | Hin]; [apply Hmax1 in Hin | apply Hmax2 in Hin]; lia.
Qed.

Lemma pickMax_maximum_witness :
  exists m, pickMax (choose (Leaf (VNum 15)) (Leaf (VNum 30))) = Leaf (VNum m) /\
            In (VNum m) (outcomes (choose (Leaf (VNum 15)) (Leaf (VNum 30)))) /\
            forall n, In (VNum n) (outcomes (choose (Leaf (VNum 15)) (Leaf (VNum 30)))) ->
                      n <= m.
Proof.
  apply (pickMax_maximum (choose (Leaf (VNum 15)) (Leaf (VNum 30)))).
  - simpl. split; [reflexivity | intro a; destruct (truthy a); exact I].
  - simpl. intro a. destruct (truthy a); [exists 15 | exists 30]; reflexivity.
Defined.

Lemma round_double_exact (z : Z) :
  - 2 ^ 53 <= z <= 2 ^ 53 -> round_double z = z.
Proof.
  intro Hz. unfold round_double.
  destruct (Z.ltb_spec (Z.abs z) (2 ^ 53)) as [Hlt | Hge]; [reflexivity |].
  assert (Hcase : z = 2 ^ 53 \/ z = - 2 ^ 53) by lia.
  destruct Hcase as [-> | ->]; vm_compute; reflexivity.
Qed.

(** [chooseIn(m, n)] on safe integers returns, within [n - m + 2]
    nested calls, and offers the integers from [m] to [n], smallest
    first: declining [k] times and then accepting picks [m + k], and
    declining every one of them ends in [fail]; an empty range is
    [fail] at once. *)
Theorem chooseIn_offers (m n : Z) (fuel : nat) :
  - 2 ^ 53 <= m ->
  n < 2 ^ 53 ->
  (Z.to_nat (n - m + 1) < fuel)%nat ->
  exists tree,
    chooseIn fuel m n = Some tree /\
    (forall k : nat, m + Z.of_nat k <= n ->
       follow tree (repeat (VBool false) k ++ [VBool true]) =
       Leaf (VNum (m + Z.of_nat k))) /\
    follow tree (repeat (VBool false) (Z.to_nat (n - m + 1))) = fail.
Proof.
  revert m. induction fuel as [| fuel IH]; intros m Hm Hn Hfuel; [lia |].
  simpl. destruct (Z.gtb_spec m n) as [Hgt | Hle].
  - exists fail. split; [reflexivity |]. split.
    + intros k Hk. lia.
    + replace (Z.to_nat (n - m + 1)) with 0%nat by lia. reflexivity.
  - rewrite round_double_exact by lia.
    destruct (IH (m + 1) ltac:(lia) Hn ltac:(lia)) as [rest [Hrest [Hpick Hfail]]].
    rewrite Hrest. eexists. split; [reflexivity |]. split.
    + intros k Hk. destruct k as [| k]; simpl.
      * f_equal. f_equal. lia.
      * rewrite Hpick by lia. f_equal. f_equal. lia.
    + replace (Z.to_nat (n - m + 1)) with (S (Z.to_nat (n - (m + 1) + 1))) by lia.
      simpl. exact Hfail.
Qed.

Lemma chooseIn_offers_witness :
  exists tree,
    chooseIn 4 1 3 = Some tree /\
    (forall k : nat, 1 + Z.of_nat k <= 3 ->
       follow tree (repeat (VBool false) k ++ [VBool true]) =
       Leaf (VNum (1 + Z.of_nat k))) /\
    follow tree (repeat (VBool false) (Z.to_nat (3 - 1 + 1))) = fail.
Proof.
  apply (@chooseIn_offers 1 3 4).
  - vm_compute. discriminate.
  - reflexivity.
  - vm_compute. lia.
Defined.

(** From [2^53] on, [m + 1] no longer advances ([2^53 + 1] rounds back to
    [2^53]), so [chooseIn(2^53, n)] with [n] at least [2^53] calls
    itself on the same arguments again and again and never returns,
    whatever the depth allowed. *)
Theorem chooseIn_stuck (n : Z) (fuel : nat) :
  2 ^ 53 <= n -> chooseIn fuel (2 ^ 53) n = None.
Proof.
  intro Hn. induction fuel as [| fuel IH]; [reflexivity |].
  change (chooseIn (S fuel) (2 ^ 53) n)
    with (if 2 ^ 53 >? n then Some fail
          else match chooseIn fuel (round_double (2 ^ 53 + 1)) n with
               | Some rest => Some (choose (Leaf (VNum (2 ^ 53))) rest)
               | None => None
               end).
  destruct (Z.gtb_spec (2 ^ 53) n) as [Hgt | _]; [lia |].
  change (round_double (2 ^ 53 + 1)) with (2 ^ 53). rewrite IH. reflexivity.
Qed.

Lemma chooseIn_stuck_witness : chooseIn 1000 (2 ^ 53) (2 ^ 53 + 2) = None.
Proof.
  apply (@chooseIn_stuck (2 ^ 53 + 2) 1000). vm_compute. discriminate.
Defined.

(** ** Laws of the state handler *)

(** The state handler satisfies the laws of a memory cell, for every
    rest of the program [k]: a [get] after [put v] reads [v]; of two
    [put]s in a row the second wins; two [get]s in a row read the same
    state. *)
Theorem state_laws (v v' : Val) :
  (forall k : Val -> Program Val,
     state (bind (put v) (fun _ => bind get k)) =
     state (bind (put v) (fun _ => k v))) /\
  (forall k : Val -> Program Val,
     state (bind (put v) (fun _ => bind (put v') k)) =
     state (bind (put v') k)) /\
  (forall k : Val -> Val -> Program Val,
     state (bind get (fun x => bind get (fun y => k x y))) =
     state (bind get (fun x => k x x))).
Proof. repeat split. Qed.

(** ** The monoid example *)

Section MonoidLaws.
Import MonoidTree.
Context {A : Type} (model : Monoid A).
Hypothesis add_assoc : forall x y z,
  add_of model x (add_of model y z) = add_of model (add_of model x y) z.
Hypothesis add_zero_l : forall x, add_of model (zero_of model) x = x.
Hypothesis add_zero_r : forall x, add_of model x (zero_of model) = x.

Lemma fold_right_add_app (xs ys : list A) :
  fold_right (add_of model) (zero_of model) (xs ++ ys) =
  add_of model (fold_right (add_of model) (zero_of model) xs)
               (fold_right (add_of model) (zero_of model) ys).
Proof.
  induction xs as [| x rest IH]; simpl.
  - now rewrite add_zero_l.
  - now rewrite IH, add_assoc.
Qed.

(** In a model that satisfies the monoid laws, [fold] only depends on
    the leaves of the tree, left to right: the shape of the tree and its
    [zero] nodes do not matter. *)
Theorem fold_leaves (tree : MTree A) :
  fold model tree = fold_right (add_of model) (zero_of model) (leaves tree).
Proof.
  induction tree as [value | | l IHl r IHr]; simpl.
  - now rewrite add_zero_r.
  - reflexivity.
  - now rewrite fold_right_add_app, IHl, IHr.
Qed.

End MonoidLaws.

Lemma fold_leaves_witness :
  MonoidTree.fold MonoidTree.MString
    (MonoidTree.add (MonoidTree.pure "a")
       (MonoidTree.add (MonoidTree.pure "b") MonoidTree.zero)) =
  fold_right (MonoidTree.add_of MonoidTree.MString)
             (MonoidTree.zero_of MonoidTree.MString)
             (MonoidTree.leaves
                (MonoidTree.add (MonoidTree.pure "a")
                   (MonoidTree.add (MonoidTree.pure "b") MonoidTree.zero))).
Proof.
  apply (@fold_leaves string MonoidTree.MString).
  - intros x y z. simpl. induction x as [| c x IHx]; simpl; [reflexivity | now rewrite IHx].
  - intro x. reflexivity.
  - intro x. simpl. induction x as [| c x IHx]; simpl; [reflexivity | now rewrite IHx].
Defined.

(** The interpreter written with the generic handler agrees with
    [fold] in the model of numbers: on every monoid tree over numbers,
    written with the generic operations, it returns the number [fold]
    computes. *)
Theorem interpreter_agrees_with_fold (tree : MonoidTree.MTree Z) :
  FreeMonoid.interpreter (FreeMonoid.encode tree) =
  Leaf (VNum (MonoidTree.fold MonoidTree.MNum tree)).
Proof.
  unfold FreeMonoid.interpreter, handler.
  induction tree as [value | | l IHl r IHr]; simpl.
  - reflexivity.
  - reflexivity.
  - rewrite IHl, IHr. reflexivity.
Qed.

(** [ap] on plain arguments: the function computation runs, and the
    function it ends with is called on the arguments as they are. *)
Theorem ap_of_values {A B : Type} (cfunc : Program (list A -> Program B))
  (xs : list A) :
  ap cfunc (map Leaf xs) = bind cfunc (fun func => func xs).
Proof.
  unfold ap. apply bind_ext; intro func. rewrite all_of_values_aux. reflexivity.
Qed.
